(** * DataProcessor: a vector of [int] with append, sort, print and sum

    Shallow embedding of [src/samples/data_processor.cpp].

    The class owns one [std::vector<int>]; its four member functions and the
    driver [main] are written below in a small state monad whose state is the
    object together with the text written to [std::cout] so far. *)

From Stdlib Require Import ZArith Lia String Ascii DecimalString DecimalZ.
From stdpp Require Import base list sorting strings numbers.

Open Scope Z_scope.

(** ** The element type [int] *)

(** [int] is the 32-bit two's-complement integer of the usual targets.
    Values are carried as [Z]; the one arithmetic operation of the program,
    [sum += value], wraps around modulo [2^32]. *)
Module Int32.

Definition min_int : Z := -2147483648.
Definition max_int : Z := 2147483647.
Definition half_modulus : Z := 2147483648.
Definition modulus : Z := 4294967296.

Definition in_range (z : Z) : Prop := min_int ≤ z ≤ max_int.

Definition wrap (z : Z) : Z := (z + half_modulus) mod modulus - half_modulus.

(** [a += b] on [int]. *)
Definition add (a b : Z) : Z := wrap (a + b).

(** The same addition when an overflow is treated as an error instead of
    wrapping: [None] as soon as the exact result is not an [int]. *)
Definition add_checked (a b : Z) : option Z :=
  if decide (min_int ≤ a + b ≤ max_int) then Some (a + b) else None.

End Int32.

(** ** Library functions the program calls *)

(** [std::ostream::operator<<(int)] with the stream's default flags: the
    decimal digits, preceded by [-] for a negative value. *)
Definition show_int (z : Z) : string := NilZero.string_of_int (Z.to_int z).

(** The converse reading of a decimal numeral. *)
Definition read_int (s : string) : option Z := Z.of_int <$> NilZero.int_of_string s.

(** [std::sort(first, last)] on a whole vector of [int], with the default
    [operator<]: the elements in non-decreasing order.  Any two sorting
    algorithms agree on integers (see [std_sort_unique]), so the choice of
    merge sort here is immaterial. *)
Definition std_sort (v : list Z) : list Z := merge_sort Z.le v.

(** ** State *)

Record DataProcessor : Type := { data : list Z }.

(** [self] is the object the member functions run on, [cout] the characters
    written to standard output so far. *)
Record World : Type := { self : DataProcessor; cout : string }.

Definition M (A : Type) : Type := World → A * World.

Definition ret {A} (a : A) : M A := λ w, (a, w).

Definition bind {A B} (m : M A) (k : A → M B) : M B :=
  λ w, let '(a, w') := m w in k a w'.

(** stdpp's monad notations [x ← m; k] and [m;; k] at [M]. *)
#[global] Instance M_ret : MRet M := @ret.
#[global] Instance M_bind : MBind M := λ A B k m, bind m k.

Definition result {A} (r : A * World) : A := r.1.
Definition after {A} (r : A * World) : World := r.2.

Definition get_data : M (list Z) := λ w, (data (self w), w).

Definition set_data (v : list Z) : M unit :=
  λ w, (tt, {| self := {| data := v |}; cout := cout w |}).

(** [std::cout << s] for a string literal. *)
Definition put_str (s : string) : M unit :=
  λ w, (tt, {| self := self w; cout := cout w +:+ s |}).

(** [std::cout << value] for an [int]. *)
Definition put_int (z : Z) : M unit := put_str (show_int z).

(** [std::cout << std::endl]: a line feed (the flush is not observable). *)
Definition endl : M unit := put_str (String "010" "").

(** [for (const auto& value : v) body(value)]. *)
Fixpoint for_each {A} (v : list A) (body : A → M unit) : M unit :=
  match v with
  | [] => mret tt
  | value :: rest => body value;; for_each rest body
  end.

(** ** The member functions *)

Definition addData (value : Z) : M unit :=
  v ← get_data;
  set_data (v ++ [value]).

Definition sortData : M unit :=
  v ← get_data;
  set_data (std_sort v).

Definition printData : M unit :=
  v ← get_data;
  for_each v (λ value, put_int value;; put_str " ");;
  endl.

(** The loop of [getSum] on its local variable [sum]. *)
Definition sum_loop (v : list Z) (sum : Z) : Z :=
  fold_left (λ sum value, Int32.add sum value) v sum.

Definition getSum : M Z :=
  v ← get_data;
  mret (sum_loop v 0).

(** [getSum] when an overflowing addition is an error. *)
Definition sum_loop_checked (v : list Z) (sum : Z) : option Z :=
  fold_left (λ acc value, acc ≫= λ sum, Int32.add_checked sum value) v (Some sum).

(** ** The driver *)

(** [DataProcessor processor;] with nothing printed yet. *)
Definition fresh : World := {| self := {| data := [] |}; cout := "" |}.

Definition main : M Z :=
  addData 5;;
  addData 2;;
  addData 8;;
  addData 1;;
  put_str "Original data: ";;
  printData;;
  sortData;;
  put_str "Sorted data: ";;
  printData;;
  sum ← getSum;
  put_str "Sum: ";; put_int sum;; endl;;
  mret 0.

(** ** Call histories *)

Inductive call : Type :=
  | AddData (value : Z)
  | SortData
  | PrintData
  | GetSum.

Definition exec (c : call) : M unit :=
  match c with
  | AddData value => addData value
  | SortData => sortData
  | PrintData => printData
  | GetSum => getSum;; mret tt
  end.

Fixpoint run (cs : list call) : M unit :=
  match cs with
  | [] => mret tt
  | c :: cs' => exec c;; run cs'
  end.

(** The values passed to [addData] in a history, in call order. *)
Fixpoint appended (cs : list call) : list Z :=
  match cs with
  | [] => []
  | AddData value :: cs' => value :: appended cs'
  | _ :: cs' => appended cs'
  end.

Definition is_add (c : call) : bool :=
  match c with AddData _ => true | _ => false end.

Definition is_sort (c : call) : bool :=
  match c with SortData => true | _ => false end.

(** A history in which [sortData] has not been called. *)
Definition unsorted (cs : list call) : bool :=
  forallb (λ c, negb (is_sort c)) cs.

(** ** Reference notions the statements are phrased with *)

(** The arithmetic (unbounded) sum. *)
Definition arith_sum (v : list Z) : Z := foldr Z.add 0 v.

(** The sums of the non-empty prefixes, in order: the values the variable
    [sum] would take if [int] were unbounded. *)
Fixpoint running_sums (acc : Z) (v : list Z) : list Z :=
  match v with
  | [] => []
  | value :: rest => (acc + value) :: running_sums (acc + value) rest
  end.

(** One line of text: every element in decimal followed by one space, then
    the line feed. *)
Definition line_of (v : list Z) : string :=
  foldr (λ value s, show_int value +:+ " " +:+ s) (String "010" "") v.

(** Reading a line back: its white-space separated words as numerals. *)
Definition read_line (s : string) : option (list Z) :=
  mapM read_int (String.words s).

(** The characters of a string, in order. *)
Definition chars (s : string) : list ascii := list_ascii_of_string s.

(** The characters a decimal numeral is made of. *)
Definition numeral_char (c : ascii) : bool :=
  match c with
  | "-" | "0" | "1" | "2" | "3" | "4" | "5" | "6" | "7" | "8" | "9" => true
  | _ => false
  end%char.

(** A text that is exactly one line: a body without line feed, then one. *)
Definition single_line (s : string) : Prop :=
  ∃ body, s = body +:+ String "010" "" ∧ "010"%char ∉ chars body.

(** What [printData] writes when standard output was empty before. *)
Definition render (w : World) : string :=
  cout (after (printData {| self := self w; cout := "" |})).

Definition sum_of (w : World) : Z := result (getSum w).

Definition data_of (w : World) : list Z := data (self w).

(** ** Notions for the properties of whole histories *)

Definition is_print (c : call) : bool :=
  match c with PrintData => true | _ => false end.

(** The number of [printData] calls in a history. *)
Fixpoint count_prints (cs : list call) : nat :=
  match cs with
  | [] => 0%nat
  | c :: cs' => ((if is_print c then 1 else 0) + count_prints cs')%nat
  end.

(** The number of line feeds in a text. *)
Definition line_feeds (s : string) : nat :=
  count_occ ascii_dec (chars s) "010"%char.

(** * Facts *)

(** ** Wrap-around arithmetic *)

Module Int32Facts.
Import Int32.

Lemma wrap_in_range z : in_range (wrap z).
Proof.
  unfold in_range, wrap, min_int, max_int, half_modulus, modulus.
  pose proof (Z.mod_pos_bound (z + 2147483648) 4294967296). lia.
Qed.

Lemma wrap_id z : in_range z → wrap z = z.
Proof.
  unfold in_range, wrap, min_int, max_int, half_modulus, modulus.
  intros Hz. rewrite Z.mod_small; lia.
Qed.

Lemma wrap_fixed_iff z : wrap z = z ↔ in_range z.
Proof.
  split; [|apply wrap_id].
  intros <-. apply wrap_in_range.
Qed.

(** Wrapping an intermediate result does not change the wrapped total. *)
Lemma wrap_add_l a b : wrap (wrap a + b) = wrap (a + b).
Proof.
  unfold wrap, half_modulus, modulus. f_equal.
  replace ((a + 2147483648) `mod` 4294967296 - 2147483648 + b + 2147483648)
    with ((a + 2147483648) `mod` 4294967296 + b) by lia.
  rewrite Zplus_mod_idemp_l. f_equal. lia.
Qed.

(** [wrap z] differs from [z] by a multiple of [2^32]. *)
Lemma wrap_congruent z : (wrap z - z) `mod` modulus = 0.
Proof.
  unfold wrap, half_modulus, modulus.
  rewrite (Z.mod_eq (z + 2147483648) 4294967296) by lia.
  replace (z + 2147483648 - 4294967296 * ((z + 2147483648) `div` 4294967296)
           - 2147483648 - z)
    with (- ((z + 2147483648) `div` 4294967296) * 4294967296) by lia.
  apply Z_mod_mult.
Qed.

Lemma add_checked_Some a b r :
  add_checked a b = Some r ↔ in_range (a + b) ∧ r = a + b.
Proof.
  unfold add_checked, in_range.
  case_decide; split; intros; simplify_eq; intuition congruence.
Qed.

End Int32Facts.

(** ** The monad: what each member function does to the state *)

Lemma string_app_cons (c : ascii) (s t : string) :
  String c s +:+ t = String c (s +:+ t).
Proof. reflexivity. Qed.

Lemma string_app_assoc (s1 s2 s3 : string) :
  (s1 +:+ s2) +:+ s3 = s1 +:+ (s2 +:+ s3).
Proof.
  induction s1 as [|c s1 IH]; [done|].
  by rewrite !string_app_cons, IH.
Qed.

Lemma string_app_nil_r (s : string) : s +:+ "" = s.
Proof.
  induction s as [|c s IH]; [done|].
  by rewrite string_app_cons, IH.
Qed.

Lemma addData_eq value w :
  addData value w
  = (tt, {| self := {| data := data_of w ++ [value] |}; cout := cout w |}).
Proof. reflexivity. Qed.

Lemma sortData_eq w :
  sortData w
  = (tt, {| self := {| data := std_sort (data_of w) |}; cout := cout w |}).
Proof. reflexivity. Qed.

Lemma getSum_eq w : getSum w = (sum_loop (data_of w) 0, w).
Proof. reflexivity. Qed.

(** The printing loop only appends to [cout], one element and one space at a
    time, in the order of the vector. *)
Lemma print_loop_eq (v : list Z) (s : DataProcessor) (out : string) :
  for_each v (λ value, put_int value;; put_str " ") {| self := s; cout := out |}
  = (tt, {| self := s;
            cout := out +:+ foldr (λ value t, show_int value +:+ " " +:+ t) "" v |}).
Proof.
  revert out. induction v as [|value rest IH]; intros out.
  - cbn. by rewrite string_app_nil_r.
  - cbn [for_each foldr]. unfold mbind, M_bind, bind at 1.
    unfold mbind, M_bind, bind at 1. cbn [put_int put_str self cout].
    rewrite IH. by rewrite !string_app_assoc.
Qed.

Lemma line_of_foldr (v : list Z) :
  line_of v = foldr (λ value t, show_int value +:+ " " +:+ t) "" v +:+ String "010" "".
Proof.
  unfold line_of. induction v as [|value rest IH]; [done|].
  cbn [foldr]. by rewrite IH, !string_app_assoc.
Qed.

Lemma printData_eq w :
  printData w = (tt, {| self := self w; cout := cout w +:+ line_of (data_of w) |}).
Proof.
  destruct w as [s out]. unfold printData, mbind, M_bind, bind, get_data.
  cbn [self cout data_of]. rewrite print_loop_eq. unfold endl, put_str.
  cbn [self cout]. by rewrite line_of_foldr, string_app_assoc.
Qed.

Lemma render_eq w : render w = line_of (data_of w).
Proof. unfold render. by rewrite printData_eq. Qed.

(** ** The summation loop *)

Lemma arith_sum_Permutation v1 v2 : v1 ≡ₚ v2 → arith_sum v1 = arith_sum v2.
Proof.
  unfold arith_sum. induction 1; cbn [foldr]; lia.
Qed.

(** Started from an [int], the loop ends on the wrapped exact total. *)
Lemma sum_loop_wrap v a :
  sum_loop v (Int32.wrap a) = Int32.wrap (a + arith_sum v).
Proof.
  unfold sum_loop, arith_sum. revert a.
  induction v as [|x v IH]; intros a; cbn [fold_left foldr].
  - f_equal. lia.
  - unfold Int32.add at 2. rewrite Int32Facts.wrap_add_l, IH. f_equal. lia.
Qed.

Lemma sum_loop_0 v : sum_loop v 0 = Int32.wrap (arith_sum v).
Proof. exact (sum_loop_wrap v 0). Qed.

Lemma sum_of_eq w : sum_of w = Int32.wrap (arith_sum (data_of w)).
Proof. unfold sum_of. rewrite getSum_eq. apply sum_loop_0. Qed.

(** ** Sorting *)

Lemma std_sort_Sorted v : Sorted Z.le (std_sort v).
Proof. apply (Sorted_merge_sort Z.le). Qed.

Lemma std_sort_Permutation v : std_sort v ≡ₚ v.
Proof. apply (merge_sort_Permutation Z.le). Qed.

(** On integers the sorted arrangement of a multiset is unique: whatever
    algorithm [std::sort] runs, its result is [std_sort]. *)
Lemma std_sort_unique v v' : Sorted Z.le v' → v' ≡ₚ v → v' = std_sort v.
Proof.
  intros Hs Hp. apply (Sorted_unique Z.le); [done|apply std_sort_Sorted|].
  by rewrite Hp, std_sort_Permutation.
Qed.

Lemma std_sort_fixed v : Sorted Z.le v → std_sort v = v.
Proof. intros Hs. symmetry. by apply std_sort_unique. Qed.

Lemma Sorted_adjacent (v : list Z) (i : nat) (a b : Z) :
  Sorted Z.le v → v !! i = Some a → v !! S i = Some b → a ≤ b.
Proof.
  intros Hs. revert i. induction Hs as [|x v Hs IH Hd]; intros i Ha Hb; [done|].
  destruct i as [|i].
  - cbn in Ha, Hb. destruct Hd as [|y v' Hxy]; simplify_eq/=. done.
  - by apply (IH i).
Qed.

(** ** Histories *)

Lemma run_cons c cs w : after (run (c :: cs) w) = after (run cs (after (exec c w))).
Proof.
  cbn [run]. unfold mbind, M_bind, bind. by destruct (exec c w) as [[] w1].
Qed.

Lemma exec_data c w :
  data_of (after (exec c w))
  = match c with
    | AddData value => data_of w ++ [value]
    | SortData => std_sort (data_of w)
    | PrintData | GetSum => data_of w
    end.
Proof.
  destruct c; cbn [exec]; [done|done| |done].
  by rewrite printData_eq.
Qed.

Lemma run_data_Permutation cs w :
  data_of (after (run cs w)) ≡ₚ data_of w ++ appended cs.
Proof.
  revert w. induction cs as [|c cs IH]; intros w.
  - cbn. by rewrite app_nil_r.
  - rewrite run_cons, IH, exec_data.
    destruct c; cbn [appended]; [|by rewrite std_sort_Permutation|done..].
    by rewrite <-app_assoc.
Qed.

Lemma run_data_unsorted cs w :
  unsorted cs = true → data_of (after (run cs w)) = data_of w ++ appended cs.
Proof.
  revert w. induction cs as [|c cs IH]; intros w Hcs.
  - cbn. by rewrite app_nil_r.
  - cbn [unsorted forallb] in Hcs. apply andb_prop in Hcs as [Hc Hcs].
    rewrite run_cons, IH, exec_data by done.
    destruct c; cbn [appended]; [|done..].
    by rewrite <-app_assoc.
Qed.

(** [addData] takes an [int]: when every argument was one, the vector holds
    only [int]s at every point of the history. *)
Lemma run_data_in_range cs :
  Forall Int32.in_range (appended cs) →
  Forall Int32.in_range (data_of (after (run cs fresh))).
Proof.
  intros Hcs. by rewrite (run_data_Permutation cs fresh).
Qed.

(** ** Decimal numerals *)

Lemma chars_cons c s : chars (String c s) = c :: chars s.
Proof. reflexivity. Qed.

Lemma chars_app s t : chars (s +:+ t) = chars s ++ chars t.
Proof.
  unfold chars. induction s as [|c s IH]; [done|].
  rewrite string_app_cons. cbn. by rewrite IH.
Qed.

Lemma uint_numeral (d : Decimal.uint) :
  Forall numeral_char (chars (NilEmpty.string_of_uint d)).
Proof. induction d; cbn; by constructor. Qed.

Lemma show_int_numeral z : Forall numeral_char (chars (show_int z)).
Proof.
  unfold show_int, NilZero.string_of_int, NilZero.string_of_uint.
  destruct (Z.to_int z) as [d|d].
  - destruct d; try apply uint_numeral. by repeat constructor.
  - change (Forall numeral_char ("-"%char :: chars
      match d with Decimal.Nil => "0" | _ => NilEmpty.string_of_uint d end)).
    constructor; [done|].
    destruct d; try apply uint_numeral. by repeat constructor.
Qed.

Lemma show_int_nonempty z : ∃ c s, show_int z = String c s.
Proof.
  unfold show_int, NilZero.string_of_int, NilZero.string_of_uint.
  destruct (Z.to_int z) as [d|d]; destruct d; cbn; eauto.
Qed.

Lemma to_int_nonnil z :
  Z.to_int z ≠ Decimal.Pos Decimal.Nil ∧ Z.to_int z ≠ Decimal.Neg Decimal.Nil.
Proof.
  destruct z as [|p|p]; cbn; split; try done;
    intros [=Hp]; by apply (DecimalPos.Unsigned.to_uint_nonnil p).
Qed.

(** Reading a printed [int] gives the value back. *)
Lemma read_show_int z : read_int (show_int z) = Some z.
Proof.
  unfold read_int, show_int. destruct (to_int_nonnil z) as [Hp Hn].
  rewrite NilZero.isi by done. cbn. f_equal. apply DecimalZ.of_to.
Qed.

Lemma show_int_inj : Inj (=) (=) show_int.
Proof.
  intros x y Hxy. apply (inj Some). by rewrite <-!read_show_int, Hxy.
Qed.

Lemma numeral_char_not_space c : numeral_char c → Ascii.is_space c = false.
Proof.
  destruct c as [[] [] [] [] [] [] [] []]; cbn; done.
Qed.

(** ** Words of a line *)

Lemma rev_app_rev_app (s acc t : string) :
  String.rev_app (String.rev_app s acc) t = String.rev_app acc (s +:+ t).
Proof.
  revert acc t. induction s as [|c s IH]; intros acc t; [done|].
  cbn [String.rev_app]. rewrite IH. by rewrite string_app_cons.
Qed.

(** A run of non-blank characters closed by a blank is one word. *)
Lemma words_go_word (s acc rest : string) (sp : ascii) :
  Forall (λ c, Ascii.is_space c = false) (chars s) →
  Ascii.is_space sp = true →
  String.words_go (Some acc) (s +:+ String sp rest)
  = String.rev (String.rev_app s acc) :: String.words_go None rest.
Proof.
  intros Hs Hsp. revert acc. induction s as [|c s IH]; intros acc.
  - change ("" +:+ String sp rest) with (String sp rest).
    cbn [String.words_go]. by rewrite Hsp.
  - rewrite chars_cons in Hs. apply Forall_cons_1 in Hs as [Hc Hs].
    rewrite string_app_cons. cbn [String.words_go String.rev_app].
    rewrite Hc. cbn [from_option]. by apply IH.
Qed.

Lemma words_word (c : ascii) (s rest : string) (sp : ascii) :
  Forall (λ c, Ascii.is_space c = false) (chars (String c s)) →
  Ascii.is_space sp = true →
  String.words (String c s +:+ String sp rest) = String c s :: String.words rest.
Proof.
  rewrite chars_cons. intros [Hc Hs]%Forall_cons_1 Hsp. unfold String.words.
  rewrite string_app_cons. cbn [String.words_go]. rewrite Hc. cbn [from_option].
  rewrite words_go_word by done. f_equal.
  unfold String.rev. rewrite rev_app_rev_app, string_app_nil_r. done.
Qed.

Lemma words_line_of v : String.words (line_of v) = show_int <$> v.
Proof.
  induction v as [|x v IH]; [done|].
  unfold line_of. cbn [foldr]. fold (line_of v).
  destruct (show_int_nonempty x) as (c & s & Hx).
  pose proof (show_int_numeral x) as Hnum. rewrite Hx in Hnum |- *.
  change (" " +:+ line_of v) with (String " " (line_of v)).
  rewrite words_word, IH; [by rewrite fmap_cons, Hx| |done].
  rewrite Forall_forall in Hnum |- *.
  intros a Ha. by apply numeral_char_not_space, Hnum.
Qed.

Lemma read_line_of v : read_line (line_of v) = Some v.
Proof.
  unfold read_line. rewrite words_line_of.
  apply mapM_fmap_Some, read_show_int.
Qed.

Lemma line_of_single_line v : single_line (line_of v).
Proof.
  exists (foldr (λ value t, show_int value +:+ " " +:+ t) "" v).
  split; [apply line_of_foldr|].
  induction v as [|x v IH]; cbn [foldr]; [by apply not_elem_of_nil|].
  rewrite !chars_app, !elem_of_app. intros [Hx|[Hsp|Hv]]; [| |done].
  - pose proof (show_int_numeral x) as Hnum.
    rewrite Forall_forall in Hnum. apply list_elem_of_In in Hx.
    by apply Hnum in Hx.
  - cbn in Hsp. by apply list_elem_of_singleton in Hsp.
Qed.

(** ** Summation without wrap-around *)

Lemma running_sums_in_range v a :
  Int32.in_range a → Forall Int32.in_range (running_sums a v) →
  Int32.in_range (a + arith_sum v).
Proof.
  revert a. induction v as [|x v IH]; intros a Ha Hv.
  - cbn. by rewrite Z.add_0_r.
  - cbn [running_sums] in Hv. apply Forall_cons_1 in Hv as [Hx Hv].
    unfold arith_sum. cbn [foldr]. fold (arith_sum v).
    rewrite Z.add_assoc. by apply IH.
Qed.

Lemma sum_loop_checked_cons x v a :
  sum_loop_checked (x :: v) a = Int32.add_checked a x ≫= sum_loop_checked v.
Proof.
  unfold sum_loop_checked at 1. cbn [fold_left mbind option_bind].
  destruct (Int32.add_checked a x) as [s|]; [done|].
  cbn. induction v as [|y v IH]; [done|]. exact IH.
Qed.

(** The checked loop succeeds exactly when every running sum is an [int],
    and then returns the arithmetic sum. *)
Lemma sum_loop_checked_Some v a r :
  sum_loop_checked v a = Some r
  ↔ Forall Int32.in_range (running_sums a v) ∧ r = a + arith_sum v.
Proof.
  revert a. induction v as [|x v IH]; intros a.
  - cbn. rewrite Z.add_0_r. split; [intros [= <-]; by split|intros [_ ->]; done].
  - rewrite sum_loop_checked_cons. cbn [running_sums].
    unfold arith_sum. cbn [foldr]. fold (arith_sum v).
    unfold Int32.add_checked. case_decide as Hx; cbn.
    + rewrite IH, Z.add_assoc. split; intros [Hv ->]; split; try done.
      * by constructor.
      * by apply Forall_cons_1 in Hv as [_ Hv].
    + split; [done|]. intros [Hv _]. by apply Forall_cons_1 in Hv as [? _].
Qed.

(** Whenever no addition overflows, the wrapping loop computes the same,
    exact, result. *)
Lemma sum_loop_checked_agrees v r :
  sum_loop_checked v 0 = Some r → sum_loop v 0 = r ∧ r = arith_sum v.
Proof.
  intros [Hv ->]%sum_loop_checked_Some. rewrite Z.add_0_l. split; [|done].
  rewrite sum_loop_0. apply Int32Facts.wrap_id.
  apply (running_sums_in_range v 0) in Hv; [done|].
  unfold Int32.in_range, Int32.min_int, Int32.max_int. lia.
Qed.

(** With checked additions the order of the elements matters only for
    whether the loop succeeds, never for its result. *)
Lemma sum_loop_checked_sorted v r r' :
  sum_loop_checked v 0 = Some r →
  sum_loop_checked (std_sort v) 0 = Some r' →
  r = r'.
Proof.
  intros [_ ->]%sum_loop_checked_Some [_ ->]%sum_loop_checked_Some.
  f_equal. symmetry. apply arith_sum_Permutation, std_sort_Permutation.
Qed.

Example sum_loop_checked_order :
  sum_loop_checked [-2147483648; 2147483647; -1] 0 = Some (-2)
  ∧ sum_loop_checked (std_sort [-2147483648; 2147483647; -1]) 0 = None
  ∧ sum_loop (std_sort [-2147483648; 2147483647; -1]) 0 = -2.
Proof. by vm_compute. Qed.

(** * The specification's claims *)

(** ** Sum *)

(** C1, as stated, fails: after appending [2147483647] and [1] the arithmetic
    sum is [2147483648], which [getSum] does not return. *)
Lemma getSum_arith_sum_overflow :
  let cs := [AddData 2147483647; AddData 1] in
  Forall Int32.in_range (appended cs)
  ∧ sum_of (after (run cs fresh)) = -2147483648
  ∧ arith_sum (appended cs) = 2147483648
  ∧ sum_of (after (run cs fresh)) ≠ arith_sum (appended cs).
Proof.
  cbv zeta. split; [|split; [|split]]; [|reflexivity|reflexivity|discriminate].
  unfold Int32.in_range, Int32.min_int, Int32.max_int.
  repeat constructor; lia.
Qed.

(** C1 (amended): for every history of calls whose appended values have an
    arithmetic sum that fits in [int], [getSum] returns that sum; on an empty
    vector it returns [0]. *)
Theorem getSum_arith_sum (cs : list call) :
  Int32.in_range (arith_sum (appended cs)) →
  sum_of (after (run cs fresh)) = arith_sum (appended cs)
  ∧ ∀ out, sum_of {| self := {| data := [] |}; cout := out |} = 0.
Proof.
  intros Hfit. split; [|done].
  rewrite sum_of_eq.
  rewrite (arith_sum_Permutation _ _ (run_data_Permutation cs fresh)).
  by apply Int32Facts.wrap_id.
Qed.

Lemma getSum_arith_sum_witness :
  let cs := [AddData 5; AddData 2; SortData; AddData 8; PrintData; AddData 1] in
  Int32.in_range (arith_sum (appended cs))
  ∧ sum_of (after (run cs fresh)) = 16.
Proof.
  assert (Hfit : Int32.in_range 16).
  { unfold Int32.in_range, Int32.min_int, Int32.max_int. lia. }
  split; [exact Hfit|].
  exact (proj1 (getSum_arith_sum
    [AddData 5; AddData 2; SortData; AddData 8; PrintData; AddData 1] Hfit)).
Defined.

(** C5: [getSum] returns the same value before and after [sortData]. *)
Theorem getSum_sortData_invariant (w : World) :
  sum_of (after (sortData w)) = sum_of w.
Proof.
  rewrite !sum_of_eq, sortData_eq. cbn [after snd data_of self data].
  f_equal. apply arith_sum_Permutation, std_sort_Permutation.
Qed.

(** C10, as stated, fails in its last part: with [2147483647], [1] and [-1]
    the second addition wraps and the third wraps back, so [getSum] returns
    the true sum although a partial sum left the range of [int]. *)
Lemma getSum_exact_despite_overflow :
  let w := after (run [AddData 2147483647; AddData 1; AddData (-1)] fresh) in
  Forall Int32.in_range (data_of w)
  ∧ sum_of w = arith_sum (data_of w)
  ∧ ¬ Forall Int32.in_range (running_sums 0 (data_of w)).
Proof.
  cbv zeta. split; [|split]; [|reflexivity|].
  - unfold Int32.in_range, Int32.min_int, Int32.max_int.
    repeat constructor; lia.
  - intros H. apply Forall_cons_1 in H as [_ H].
    apply Forall_cons_1 in H as [H _].
    unfold Int32.in_range, Int32.max_int in H. cbn in H. lia.
Qed.

(** C10 (amended): under wrap-around accumulation [getSum] returns the
    arithmetic sum of the appended values reduced modulo [2^32] into the
    range of [int]; it equals the arithmetic sum exactly when that sum is in
    the range, which is the case in particular when no partial sum leaves
    it (then the checked loop returns the same value). *)
Theorem getSum_wraps (cs : list call) :
  let w := after (run cs fresh) in
  let total := arith_sum (appended cs) in
  sum_of w = Int32.wrap total
  ∧ Int32.in_range (sum_of w)
  ∧ (sum_of w - total) `mod` Int32.modulus = 0
  ∧ (sum_of w = total ↔ Int32.in_range total)
  ∧ (Forall Int32.in_range (running_sums 0 (data_of w)) →
     sum_of w = total ∧ sum_loop_checked (data_of w) 0 = Some total).
Proof.
  cbv zeta.
  assert (Hsum : sum_of (after (run cs fresh))
                 = Int32.wrap (arith_sum (appended cs))).
  { rewrite sum_of_eq.
    by rewrite (arith_sum_Permutation _ _ (run_data_Permutation cs fresh)). }
  assert (Hperm : arith_sum (data_of (after (run cs fresh)))
                  = arith_sum (appended cs)).
  { by rewrite (arith_sum_Permutation _ _ (run_data_Permutation cs fresh)). }
  rewrite Hsum. split; [done|]. split; [apply Int32Facts.wrap_in_range|].
  split; [apply Int32Facts.wrap_congruent|].
  split; [apply Int32Facts.wrap_fixed_iff|].
  intros Hv.
  assert (Hchk : sum_loop_checked (data_of (after (run cs fresh))) 0
                 = Some (arith_sum (appended cs))).
  { apply sum_loop_checked_Some. by rewrite Z.add_0_l, Hperm. }
  split; [|done].
  apply sum_loop_checked_agrees in Hchk as [Hloop _].
  by rewrite <-Hsum, <-Hloop.
Qed.

Lemma getSum_wraps_witness :
  let cs := [AddData 5; AddData 2; AddData 8; AddData 1] in
  Forall Int32.in_range (running_sums 0 (data_of (after (run cs fresh))))
  ∧ sum_of (after (run cs fresh)) = 16
  ∧ sum_loop_checked (data_of (after (run cs fresh))) 0 = Some 16.
Proof.
  assert (Hfit : Forall Int32.in_range [5; 7; 15; 16]).
  { unfold Int32.in_range, Int32.min_int, Int32.max_int.
    repeat constructor; lia. }
  split; [exact Hfit|].
  exact (proj2 (proj2 (proj2 (proj2 (getSum_wraps
    [AddData 5; AddData 2; AddData 8; AddData 1])))) Hfit).
Defined.

(** ** Sort *)

(** C2: after [sortData], any two adjacent elements [a], [b] of the vector
    (the order in which [printData] emits them, by [printData_eq]) satisfy
    [a ≤ b]. *)
Theorem sortData_adjacent_le (w : World) (i : nat) (a b : Z) :
  data_of (after (sortData w)) !! i = Some a →
  data_of (after (sortData w)) !! S i = Some b →
  a ≤ b.
Proof.
  rewrite sortData_eq. cbn [after snd data_of self data].
  apply Sorted_adjacent, std_sort_Sorted.
Qed.

Lemma sortData_adjacent_le_witness :
  let w := after (run [AddData 5; AddData 2; AddData 8; AddData 1] fresh) in
  data_of (after (sortData w)) !! 1%nat = Some 2
  ∧ data_of (after (sortData w)) !! 2%nat = Some 5
  ∧ 2 ≤ 5.
Proof.
  cbv zeta. split; [reflexivity|]. split; [reflexivity|].
  apply (sortData_adjacent_le
           (after (run [AddData 5; AddData 2; AddData 8; AddData 1] fresh)) 1 2 5);
    reflexivity.
Defined.

(** C8: [sortData] twice in a row leaves the same state as [sortData] once;
    on an empty or one-element vector it changes nothing. *)
Theorem sortData_idempotent (w : World) :
  after (sortData (after (sortData w))) = after (sortData w)
  ∧ (∀ out, let w0 := {| self := {| data := [] |}; cout := out |} in
            after (sortData w0) = w0)
  ∧ (∀ x out, let w1 := {| self := {| data := [x] |}; cout := out |} in
              after (sortData w1) = w1).
Proof.
  split; [|by split].
  rewrite !sortData_eq. cbn [after snd data_of self data cout].
  by rewrite (std_sort_fixed _ (std_sort_Sorted _)).
Qed.

(** ** Contents of the vector *)

(** C4: the vector is empty at construction; after any history it holds
    exactly the multiset of the values appended so far; [addData] puts its
    argument at the end, [sortData] permutes, and the length grows by one on
    [addData] and is unchanged by every other call. *)
Theorem data_is_appended_multiset :
  data_of fresh = []
  ∧ (∀ cs, data_of (after (run cs fresh)) ≡ₚ appended cs)
  ∧ (∀ value w, data_of (after (addData value w)) = data_of w ++ [value])
  ∧ (∀ w, data_of (after (sortData w)) ≡ₚ data_of w)
  ∧ (∀ c w, length (data_of (after (exec c w)))
            = (length (data_of w) + if is_add c then 1 else 0)%nat).
Proof.
  split; [done|]. split; [intros cs; apply (run_data_Permutation cs fresh)|].
  split; [done|]. split; [intros w; apply std_sort_Permutation|].
  intros c w. rewrite exec_data. destruct c; cbn [is_add].
  - by rewrite length_app.
  - by rewrite std_sort_Permutation, Nat.add_0_r.
  - by rewrite Nat.add_0_r.
  - by rewrite Nat.add_0_r.
Qed.

(** C9: [printData] and [getSum] leave the vector as it was; [printData]
    only appends to standard output and [getSum] changes nothing at all. *)
Theorem observers_preserve_data (w : World) :
  self (after (printData w)) = self w
  ∧ (∃ text, cout (after (printData w)) = cout w +:+ text)
  ∧ after (getSum w) = w.
Proof.
  rewrite printData_eq. split; [done|]. split; [|done].
  by exists (line_of (data_of w)).
Qed.

(** ** Print *)

(** C7: [printData] writes one line: for each element, in order, its decimal
    numeral followed by one space, and then a line feed.  The text has no
    other line feed, its blank-separated words are the numerals of the
    elements, and each numeral reads back as its element.  On an empty vector
    the text is the line feed alone. *)
Theorem printData_line_format (w : World) :
  cout (after (printData w)) = cout w +:+ render w
  ∧ render w = line_of (data_of w)
  ∧ single_line (render w)
  ∧ String.words (render w) = show_int <$> data_of w
  ∧ read_line (render w) = Some (data_of w)
  ∧ (∀ out, render {| self := {| data := [] |}; cout := out |} = String "010" "").
Proof.
  rewrite render_eq, printData_eq. split; [done|]. split; [done|].
  split; [apply line_of_single_line|]. split; [apply words_line_of|].
  split; [apply read_line_of|done].
Qed.

(** C6: as long as [sortData] has not been called, [printData] lists the
    appended values in the order of the [addData] calls, each followed by one
    space. *)
Theorem printData_append_order (cs : list call) :
  unsorted cs = true →
  render (after (run cs fresh)) = line_of (appended cs)
  ∧ String.words (render (after (run cs fresh))) = show_int <$> appended cs
  ∧ read_line (render (after (run cs fresh))) = Some (appended cs).
Proof.
  intros Hcs. rewrite render_eq, (run_data_unsorted cs fresh Hcs).
  cbn [fresh data_of self data app].
  split; [done|]. split; [apply words_line_of|apply read_line_of].
Qed.

Lemma printData_append_order_witness :
  let cs := [AddData 5; PrintData; AddData (-2); GetSum; AddData 8; AddData 0] in
  unsorted cs = true
  ∧ render (after (run cs fresh)) = "5 -2 8 0 " +:+ String "010" "".
Proof.
  cbv zeta. split; [reflexivity|].
  exact (proj1 (printData_append_order
    [AddData 5; PrintData; AddData (-2); GetSum; AddData 8; AddData 0] eq_refl)).
Defined.

(** ** The driver's scenario *)

(** C3: with 5, 2, 8, 1 appended to a fresh object, [printData] writes
    ["5 2 8 1 "] and a line feed; after [sortData] it writes ["1 2 5 8 "] and
    a line feed; [getSum] returns 16 before and after the sort.  [main]
    prints accordingly. *)
Theorem scenario_5_2_8_1 :
  let w := after (run [AddData 5; AddData 2; AddData 8; AddData 1] fresh) in
  render w = "5 2 8 1 " +:+ String "010" ""
  ∧ render (after (sortData w)) = "1 2 5 8 " +:+ String "010" ""
  ∧ sum_of w = 16
  ∧ sum_of (after (sortData w)) = 16
  ∧ main fresh
    = (0, {| self := {| data := [1; 2; 5; 8] |};
             cout := "Original data: 5 2 8 1 " +:+ String "010" ""
                     +:+ "Sorted data: 1 2 5 8 " +:+ String "010" ""
                     +:+ "Sum: 16" +:+ String "010" "" |}).
Proof. cbv zeta. repeat split; vm_compute; reflexivity. Qed.

(** * Further properties of the member functions *)

(** ** Helper lemmas *)

Lemma World_eta w : w = {| self := {| data := data_of w |}; cout := cout w |}.
Proof. by destruct w as [[v] out]. Qed.

Lemma StronglySorted_lookup_le (v : list Z) (i j : nat) (a b : Z) :
  StronglySorted Z.le v → (i ≤ j)%nat →
  v !! i = Some a → v !! j = Some b → a ≤ b.
Proof.
  intros Hs. revert i j.
  induction Hs as [|x v Hs IH Hx]; intros i j Hij Ha Hb; [done|].
  destruct i as [|i], j as [|j]; cbn in Ha, Hb; simplify_eq.
  - lia.
  - rewrite List.Forall_forall in Hx. apply Hx.
    apply list_elem_of_In, list_elem_of_lookup. by exists j.
  - lia.
  - apply (IH i j); [lia|done..].
Qed.

Lemma line_feeds_app s t : line_feeds (s +:+ t) = (line_feeds s + line_feeds t)%nat.
Proof. unfold line_feeds. by rewrite chars_app, count_occ_app. Qed.

Lemma line_feeds_show_int z : line_feeds (show_int z) = 0%nat.
Proof.
  unfold line_feeds. apply count_occ_not_In. intros Hin.
  pose proof (show_int_numeral z) as Hnum.
  rewrite List.Forall_forall in Hnum. by apply Hnum in Hin.
Qed.

Lemma line_feeds_line_of v : line_feeds (line_of v) = 1%nat.
Proof.
  induction v as [|x v IH]; [done|].
  unfold line_of. cbn [foldr]. fold (line_of v).
  by rewrite !line_feeds_app, line_feeds_show_int, IH.
Qed.

Lemma exec_cout c w :
  cout (after (exec c w))
  = cout w +:+ (if is_print c then line_of (data_of w) else "").
Proof.
  destruct c; cbn [exec is_print]; try by rewrite string_app_nil_r.
  by rewrite printData_eq.
Qed.

Lemma run_cout cs w :
  ∃ text, cout (after (run cs w)) = cout w +:+ text
          ∧ line_feeds text = count_prints cs
          ∧ (count_prints cs = 0%nat → text = "").
Proof.
  revert w. induction cs as [|c cs IH]; intros w.
  - exists "". by rewrite string_app_nil_r.
  - destruct (IH (after (exec c w))) as (text & Hout & Hlf & Hnil).
    rewrite run_cons, Hout, exec_cout, string_app_assoc.
    eexists. split; [done|]. rewrite line_feeds_app, Hlf. cbn [count_prints].
    destruct (is_print c).
    + rewrite line_feeds_line_of. split; [done|]. intros [=].
    + split; [done|]. intros Hc. by rewrite (Hnil Hc).
Qed.

Lemma running_sums_nonneg v a :
  Forall (λ x, 0 ≤ x) v →
  Forall (λ s, a ≤ s ≤ a + arith_sum v) (running_sums a v)
  ∧ 0 ≤ arith_sum v.
Proof.
  intros Hv. revert a. induction Hv as [|x v Hx Hv IH]; intros a.
  - by split; [constructor|].
  - cbn [running_sums]. unfold arith_sum. cbn [foldr]. fold (arith_sum v).
    destruct (IH (a + x)) as [Hrun Hsum]. split; [|lia].
    constructor; [lia|].
    rewrite List.Forall_forall in Hrun |- *. intros s Hs%Hrun. lia.
Qed.

(** ** Sort *)

(** X1: what [sortData] leaves in the vector depends only on the multiset of
    appended values: two histories that appended the same values, in any
    order and with any other calls in between, end after [sortData] with
    equal objects, which [printData] shows as the same line. *)
Theorem sortData_canonical (cs1 cs2 : list call) :
  appended cs1 ≡ₚ appended cs2 →
  self (after (sortData (after (run cs1 fresh))))
  = self (after (sortData (after (run cs2 fresh))))
  ∧ render (after (sortData (after (run cs1 fresh))))
    = render (after (sortData (after (run cs2 fresh)))).
Proof.
  intros Hperm.
  assert (Hdata : std_sort (data_of (after (run cs1 fresh)))
                  = std_sort (data_of (after (run cs2 fresh)))).
  { apply std_sort_unique; [apply std_sort_Sorted|].
    rewrite std_sort_Permutation.
    rewrite (run_data_Permutation cs1 fresh), (run_data_Permutation cs2 fresh).
    cbn [fresh data_of self data app]. exact Hperm. }
  rewrite !render_eq, !sortData_eq. cbn [after snd self data_of data].
  by rewrite Hdata.
Qed.

Lemma sortData_canonical_witness :
  let cs1 := [AddData 5; AddData 2; PrintData; AddData 8] in
  let cs2 := [AddData 2; SortData; AddData 8; AddData 5] in
  appended cs1 ≡ₚ appended cs2
  ∧ self (after (sortData (after (run cs1 fresh))))
    = self (after (sortData (after (run cs2 fresh)))).
Proof.
  assert (Hperm : [5; 2; 8] ≡ₚ [2; 8; 5]).
  { apply (bool_decide_unpack _). by vm_compute. }
  split; [exact Hperm|].
  exact (proj1 (sortData_canonical
    [AddData 5; AddData 2; PrintData; AddData 8]
    [AddData 2; SortData; AddData 8; AddData 5] Hperm)).
Defined.

(** X2: after [sortData] the whole vector is ordered, not only neighbours:
    an element at an earlier position is never greater than one at a later
    position; in particular the first element is a minimum and the last a
    maximum. *)
Theorem sortData_ordered (w : World) (i j : nat) (a b : Z) :
  (i ≤ j)%nat →
  data_of (after (sortData w)) !! i = Some a →
  data_of (after (sortData w)) !! j = Some b →
  a ≤ b.
Proof.
  rewrite sortData_eq. cbn [after snd data_of self data].
  apply StronglySorted_lookup_le, Sorted_StronglySorted, std_sort_Sorted.
  exact Z.le_trans.
Qed.

Lemma sortData_ordered_witness :
  let w := after (run [AddData 5; AddData 2; AddData 8; AddData 1] fresh) in
  (0 ≤ 3)%nat
  ∧ data_of (after (sortData w)) !! 0%nat = Some 1
  ∧ data_of (after (sortData w)) !! 3%nat = Some 8
  ∧ 1 ≤ 8.
Proof.
  cbv zeta. split; [lia|]. split; [reflexivity|]. split; [reflexivity|].
  apply (sortData_ordered
           (after (run [AddData 5; AddData 2; AddData 8; AddData 1] fresh))
           0 3 1 8); [lia|reflexivity|reflexivity].
Defined.

(** X3: [sortData] leaves the state exactly as it was if and only if the
    vector was already in non-decreasing order. *)
Theorem sortData_noop_iff_sorted (w : World) :
  after (sortData w) = w ↔ Sorted Z.le (data_of w).
Proof.
  rewrite sortData_eq. cbn [after snd]. split.
  - intros Hw. apply (f_equal data_of) in Hw. cbn [data_of self data] in Hw.
    rewrite <-Hw. apply std_sort_Sorted.
  - intros Hs. rewrite (std_sort_fixed _ Hs). symmetry. apply World_eta.
Qed.

(** ** Sum *)

(** X4: [getSum] is incremental: after any further history of calls it
    returns the earlier result plus the arithmetic sum of the values appended
    in between, wrapped into the range of [int]. *)
Theorem getSum_incremental (cs : list call) (w : World) :
  sum_of (after (run cs w))
  = Int32.wrap (sum_of w + arith_sum (appended cs)).
Proof.
  rewrite !sum_of_eq, Int32Facts.wrap_add_l. f_equal.
  rewrite (arith_sum_Permutation _ _ (run_data_Permutation cs w)).
  unfold arith_sum. rewrite foldr_app.
  generalize (foldr Z.add 0 (appended cs)). intros t.
  induction (data_of w) as [|x v IH]; cbn [foldr]; lia.
Qed.

(** X5: [getSum] does not depend on the order of the elements: two states
    whose vectors hold the same multiset give the same result. *)
Theorem getSum_order_independent (w1 w2 : World) :
  data_of w1 ≡ₚ data_of w2 → sum_of w1 = sum_of w2.
Proof.
  intros Hperm. rewrite !sum_of_eq. f_equal. by apply arith_sum_Permutation.
Qed.

Lemma getSum_order_independent_witness :
  let w1 := after (run [AddData 2147483647; AddData 1; AddData (-7)] fresh) in
  let w2 := after (run [AddData (-7); AddData 2147483647; AddData 1] fresh) in
  data_of w1 ≡ₚ data_of w2 ∧ sum_of w1 = sum_of w2.
Proof.
  assert (Hperm : [2147483647; 1; -7] ≡ₚ [-7; 2147483647; 1]).
  { apply (bool_decide_unpack _). by vm_compute. }
  split; [exact Hperm|].
  exact (getSum_order_independent
    (after (run [AddData 2147483647; AddData 1; AddData (-7)] fresh))
    (after (run [AddData (-7); AddData 2147483647; AddData 1] fresh)) Hperm).
Defined.

(** X6: when no element is negative and the arithmetic sum fits in [int],
    no addition in the loop of [getSum] overflows, neither on the vector as
    it is nor after [sortData]: the checked loop succeeds with the value
    [getSum] returns. *)
Theorem getSum_nonneg_no_overflow (w : World) :
  Forall (λ x, 0 ≤ x) (data_of w) →
  Int32.in_range (arith_sum (data_of w)) →
  sum_loop_checked (data_of w) 0 = Some (sum_of w)
  ∧ sum_loop_checked (data_of (after (sortData w))) 0 = Some (sum_of w).
Proof.
  intros Hpos Hfit.
  assert (Hsum : sum_of w = arith_sum (data_of w)).
  { rewrite sum_of_eq. by apply Int32Facts.wrap_id. }
  assert (Hany : ∀ v, v ≡ₚ data_of w → sum_loop_checked v 0 = Some (sum_of w)).
  { intros v Hv. apply sum_loop_checked_Some.
    rewrite Z.add_0_l, Hsum, (arith_sum_Permutation _ _ Hv). split; [|done].
    assert (Hpos' : Forall (λ x, 0 ≤ x) v) by by rewrite Hv.
    destruct (running_sums_nonneg v 0 Hpos') as [Hrun _].
    rewrite List.Forall_forall in Hrun |- *. intros s Hs%Hrun.
    rewrite (arith_sum_Permutation _ _ Hv) in Hs.
    unfold Int32.in_range, Int32.min_int, Int32.max_int in *. lia. }
  split; [by apply Hany|].
  apply Hany. rewrite sortData_eq. apply std_sort_Permutation.
Qed.

Lemma getSum_nonneg_no_overflow_witness :
  let w := after (run [AddData 2147483000; AddData 0; AddData 647] fresh) in
  Forall (λ x, 0 ≤ x) (data_of w)
  ∧ Int32.in_range (arith_sum (data_of w))
  ∧ sum_loop_checked (data_of (after (sortData w))) 0 = Some 2147483647.
Proof.
  assert (Hpos : Forall (λ x, 0 ≤ x) [2147483000; 0; 647]).
  { repeat constructor; lia. }
  assert (Hfit : Int32.in_range 2147483647).
  { unfold Int32.in_range, Int32.min_int, Int32.max_int. lia. }
  split; [exact Hpos|]. split; [exact Hfit|].
  exact (proj2 (getSum_nonneg_no_overflow
    (after (run [AddData 2147483000; AddData 0; AddData 647] fresh)) Hpos Hfit)).
Defined.

(** ** Print *)

(** X7: over any history, standard output only grows: what was written
    before stays, and the text added holds exactly one line feed per
    [printData] call; it is empty exactly when [printData] was not called,
    so [addData], [sortData] and [getSum] write nothing. *)
Theorem output_append_only (cs : list call) (w : World) :
  ∃ text, cout (after (run cs w)) = cout w +:+ text
          ∧ line_feeds text = count_prints cs
          ∧ (text = "" ↔ count_prints cs = 0%nat).
Proof.
  destruct (run_cout cs w) as (text & Hout & Hlf & Hnil).
  exists text. split; [done|]. split; [done|]. split; [|done].
  intros ->. by rewrite <-Hlf.
Qed.

(** X8: the line [printData] writes determines the vector: two states print
    the same line if and only if they hold the same elements in the same
    order. *)
Theorem render_determines_data (w1 w2 : World) :
  render w1 = render w2 ↔ data_of w1 = data_of w2.
Proof.
  rewrite !render_eq. split; [|by intros ->].
  intros Hline. apply (inj Some).
  by rewrite <-!read_line_of, Hline.
Qed.
